(** * fluent-builder: the runtime enforcement wrapper of [src/builder-factory.ts]

    A shallow embedding of [createBuilder], its Proxy [get] handler, the
    closures the handler returns, and the factory helpers
    [createBuilderFactory] / [createBuilderFactoryFor].

    The inner builder is arbitrary user code.  It is reached only through
    the four operations of the [Host] class below (property read, [for-in]
    enumeration, function application, [new]); everything the wrapper
    itself does is written out.

    What is modelled and what is not:
    - the mutable [called] set of a [createBuilder] activation lives in the
      store under the identity of its handler, so that all Proxies made
      from one handler share it, and Proxies have an identity of their own;
    - a member is read when the trap runs, the closure the trap returns
      acts when it is called, and the arguments of a call expression are
      evaluated in between; the three moments are kept apart;
    - property reads on inner objects have no effects (no accessor
      properties) and inner functions return or throw;
    - arguments passed to inner methods are inner values; what the inner
      methods return is dropped by the wrapper, as in the source;
    - [getMember] on a view is the answer of the trap; [proxyGet] is
      the read as the engine performs it, with the check of the answer
      against an own non-configurable, read-only property of the target;
    - the members that closures and [groupProxy] inherit from
      [Function.prototype] and [Object.prototype] are left out. *)

From Stdlib Require Import DecimalString.
From stdpp Require Import gmap strings list.

Open Scope string_scope.
Open Scope list_scope.
Open Scope nat_scope.

(** ** JavaScript values of the inner builder *)

(** Functions and objects live in the host heap and are named by their
    address; [typeof] tells them apart as in JavaScript. *)
Inductive value : Type :=
| VUndefined
| VNull
| VBoolean (b : bool)
| VNumber (n : Z)
| VString (s : string)
| VSymbol (n : nat)
| VFunction (f : nat)
| VObject (o : nat).

#[global] Instance value_eq_dec : EqDecision value.
Proof. solve_decision. Defined.

Definition typeof (v : value) : string :=
  match v with
  | VUndefined => "undefined"
  | VNull => "object"
  | VBoolean _ => "boolean"
  | VNumber _ => "number"
  | VString _ => "string"
  | VSymbol _ => "symbol"
  | VFunction _ => "function"
  | VObject _ => "object"
  end.

(** [value !== null] *)
Definition notNull (v : value) : bool :=
  match v with VNull => false | _ => true end.

(** [prop === v] for a string [prop] *)
Definition strictEqualsString (prop : string) (v : value) : bool :=
  match v with VString s => String.eqb prop s | _ => false end.

(** [prop.startsWith('with')] *)
Definition startsWith (prop pre : string) : bool := String.prefix pre prop.

(** A property key is a string or a symbol. *)
Inductive key : Type :=
| KString (s : string)
| KSymbol (n : nat).

#[global] Instance key_eq_dec : EqDecision key.
Proof. solve_decision. Defined.

(** ** Completions *)

Inductive exn : Type :=
| Error (message : string)   (* [new Error(message)], raised by the wrapper *)
| TypeError                  (* the engine: calling what is not a function *)
| Thrown (v : value).        (* anything raised by inner-builder code *)

Inductive completion (A : Type) : Type :=
| Normal (a : A)
| Throw (e : exn).
Arguments Normal {A} a.
Arguments Throw {A} e.

Definition cmap {A B} (f : A → B) (c : completion A) : completion B :=
  match c with Normal a => Normal (f a) | Throw e => Throw e end.

(** ** The host: what the wrapper needs from the engine and the inner builder *)

(** Property reads on inner objects are plain lookups (no accessor
    properties), and inner functions are total: they return or throw. *)
Class Host (World : Type) := {
  (** [o[k]] *)
  getProp : World → value → key → value;
  (** the keys visited by [for (const key in o)], in order *)
  forIn : World → value → list string;
  (** [f.apply(thisArg, args)] for the function at address [f] *)
  callFunction : nat → value → list value → World → World * completion value;
  (** [new cls(...args)] *)
  construct : value → list value → World → World * completion value
}.

(** Application of an arbitrary value: only functions can be called. *)
Definition invoke `{Host World} (f thisArg : value) (args : list value)
    (w : World) : World * completion value :=
  match f with
  | VFunction a => callFunction a thisArg args w
  | _ => (w, Throw TypeError)
  end.

(** ** The wrapper *)

(** One [handler] object exists per [createBuilder] activation; it closes
    over [buildMethod] (constant) and [called] (a mutable [Set<string>],
    kept in the store under the handler's identity). *)
Record handler : Type := Handler {
  hid : nat;
  buildMethod : value
}.

(** [new Proxy(target, handler)]; [pid] is the identity of the Proxy object. *)
Record proxy : Type := Proxy {
  pid : nat;
  target : value;
  phandler : handler
}.

(** The closure stored under [groupProxy[key]]. *)
Record groupFn : Type := GroupFn {
  g_handler : handler;
  g_target : value;
  g_value : value;      (* the group object captured at access time *)
  g_key : string;
  g_prop : string       (* the name of the group *)
}.

(** Values handed to the user of a wrapped builder. *)
Inductive wvalue : Type :=
| WValue (v : value)
| WProxy (p : proxy)
  (** [() => target[prop]()] *)
| WBuildFn (tgt : value) (prop : string)
  (** [(...args) => { value.apply(target, args); if (isOneTime) called.add(prop); return new Proxy(target, handler); }] *)
| WMethodFn (h : handler) (tgt : value) (prop : string) (val : value) (isOneTime : bool)
| WGroupFn (g : groupFn)
  (** the object [groupProxy], its members in insertion order *)
| WGroupProxy (members : list (string * groupFn)).

Section Wrapper.
Context {World : Type} `{HostW : Host World}.

Record state : Type := State {
  world : World;                         (* the heap of the inner builders *)
  calledSets : gmap nat (gset string);   (* [called], per handler *)
  nextHandler : nat;                     (* allocation of handler objects *)
  nextProxy : nat                        (* allocation of Proxy objects *)
}.

Definition setWorld (st : state) (w : World) : state :=
  State w (calledSets st) (nextHandler st) (nextProxy st).

Definition called (st : state) (h : handler) : gset string :=
  default ∅ (calledSets st !! hid h).

(** [called.has(prop)] *)
Definition calledHas (st : state) (h : handler) (prop : string) : bool :=
  bool_decide (prop ∈ called st h).

(** [called.add(prop)] *)
Definition calledAdd (st : state) (h : handler) (prop : string) : state :=
  State (world st) (<[hid h := {[prop]} ∪ called st h]> (calledSets st))
        (nextHandler st) (nextProxy st).

(** [new Proxy(target, handler)] *)
Definition newProxy (st : state) (tgt : value) (h : handler) : state * proxy :=
  (State (world st) (calledSets st) (nextHandler st) (S (nextProxy st)),
   Proxy (nextProxy st) tgt h).

Definition methodMessage (prop : string) : string :=
  "Method '" +:+ prop +:+ "' already called".

Definition groupMessage (prop : string) : string :=
  "Group '" +:+ prop +:+ "' already used".

(** The [get] trap of the handler. *)
Definition get (st : state) (h : handler) (tgt : value) (prop : key)
    : completion wvalue :=
  match prop with
  | KSymbol _ => Normal (WValue VUndefined)
  | KString prop =>
    if strictEqualsString prop (buildMethod h) then Normal (WBuildFn tgt prop)
    else
      let val := getProp (world st) tgt (KString prop) in
      if String.eqb (typeof val) "function" then
        let isOneTime := startsWith prop "with" in
        if isOneTime && calledHas st h prop
        then Throw (Error (methodMessage prop))
        else Normal (WMethodFn h tgt prop val isOneTime)
      else if String.eqb (typeof val) "object" && notNull val then
        if calledHas st h prop
        then Throw (Error (groupMessage prop))
        else Normal (WGroupProxy
               (map (λ k, (k, GroupFn h tgt val k prop)) (forIn (world st) val)))
      else Normal (WValue val)
  end.

(** Body shared by the method closure and the group closures once the
    underlying function has been applied: record, then wrap again. *)
Definition finish (st : state) (w : World) (r : completion value)
    (record : bool) (h : handler) (tgt : value) (prop : string)
    : state * completion wvalue :=
  match r with
  | Throw e => (setWorld st w, Throw e)
  | Normal _ =>
    let st1 := setWorld st w in
    let st2 := if record then calledAdd st1 h prop else st1 in
    let '(st3, p) := newProxy st2 tgt h in
    (st3, Normal (WProxy p))
  end.

(** Calling a value obtained from the wrapper, [f.call(thisArg, ...args)]. *)
Definition call (st : state) (f : wvalue) (thisArg : value) (args : list value)
    : state * completion wvalue :=
  match f with
  | WBuildFn tgt prop =>
    let '(w, r) := invoke (getProp (world st) tgt (KString prop)) tgt [] (world st) in
    (setWorld st w, cmap WValue r)
  | WMethodFn h tgt prop val isOneTime =>
    let '(w, r) := invoke val tgt args (world st) in
    finish st w r isOneTime h tgt prop
  | WGroupFn g =>
    let '(w, r) := invoke (getProp (world st) (g_value g) (KString (g_key g)))
                          (g_value g) args (world st) in
    finish st w r true (g_handler g) (g_target g) (g_prop g)
  | WValue v =>
    let '(w, r) := invoke v thisArg args (world st) in
    (setWorld st w, cmap WValue r)
  | WProxy _ | WGroupProxy _ => (st, Throw TypeError)
  end.

Fixpoint lookupMember (members : list (string * groupFn)) (k : string)
    : option groupFn :=
  match members with
  | [] => None
  | (k', g) :: rest => if String.eqb k k' then Some g else lookupMember rest k
  end.

(** Property access [recv[k]] on a value handed out by the wrapper. *)
Definition getMember (st : state) (recv : wvalue) (k : key) : completion wvalue :=
  match recv with
  | WProxy p => get st (phandler p) (target p) k
  | WGroupProxy members =>
    match k with
    | KString s =>
      match lookupMember members s with
      | Some g => Normal (WGroupFn g)
      | None => Normal (WValue VUndefined)
      end
    | KSymbol _ => Normal (WValue VUndefined)
    end
  | WValue VUndefined | WValue VNull => Throw TypeError
  | WValue v => Normal (WValue (getProp (world st) v k))
  | WBuildFn _ _ | WMethodFn _ _ _ _ _ | WGroupFn _ => Normal (WValue VUndefined)
  end.

(** Argument expressions are evaluated after the callee, and may have
    effects on the host of their own. *)
Definition argsExpr : Type := World → World * completion (list value).

Definition constArgs (args : list value) : argsExpr := λ w, (w, Normal args).

Definition thisOf (recv : wvalue) : value :=
  match recv with WValue v => v | _ => VUndefined end.

(** The method call expression [recv.prop(...args)]: member access,
    then the arguments, then the call. *)
Definition callMember (st : state) (recv : wvalue) (prop : string)
    (args : argsExpr) : state * completion wvalue :=
  match getMember st recv (KString prop) with
  | Throw e => (st, Throw e)
  | Normal f =>
    let '(w, a) := args (world st) in
    match a with
    | Throw e => (setWorld st w, Throw e)
    | Normal vs => call (setWorld st w) f (thisOf recv) vs
    end
  end.

(** [recv.group.key(...args)] *)
Definition callGroupMember (st : state) (recv : wvalue) (group k : string)
    (args : argsExpr) : state * completion wvalue :=
  match getMember st recv (KString group) with
  | Throw e => (st, Throw e)
  | Normal gp => callMember st gp k args
  end.

(** [createBuilder(cls, buildMethod, ...args)] *)
Definition createBuilder (st : state) (cls buildMethod : value)
    (args : list value) : state * completion wvalue :=
  let '(w, r) := construct cls args (world st) in
  match r with
  | Throw e => (setWorld st w, Throw e)
  | Normal instance =>
    let h := Handler (nextHandler st) buildMethod in
    let st1 := State w (<[nextHandler st := ∅]> (calledSets st))
                     (S (nextHandler st)) (nextProxy st) in
    let '(st2, p) := newProxy st1 instance h in
    (st2, Normal (WProxy p))
  end.

(** The function [(...args) => createBuilder(cls, buildMethod, ...args)]. *)
Record factory : Type := Factory {
  f_cls : value;
  f_buildMethod : value
}.


(** [createBuilderFactory(...args)]; [args[i]] is [undefined] out of range. *)
Definition createBuilderFactory (args : list value) : factory :=
  if String.eqb (typeof (nth 0 args VUndefined)) "function"
  then Factory (nth 0 args VUndefined) (VString "build")
  else Factory (nth 1 args VUndefined) (nth 0 args VUndefined).

Definition callFactory (st : state) (f : factory) (ctorArgs : list value)
    : state * completion wvalue :=
  createBuilder st (f_cls f) (f_buildMethod f) ctorArgs.

End Wrapper.

Arguments state World : clear implicits.

(** ** Chains and reachability *)

Section Chains.
Context {World : Type} `{HostW : Host World}.



(** What a program holding wrapper values can do to the state: call
    one of them, wrap another builder, or run code that only touches
    the host. *)
Inductive step : state World → state World → Prop :=
| step_call st f thisArg args :
    step st (call st f thisArg args).1
| step_create st cls bm args :
    step st (createBuilder st cls bm args).1
| step_host st w :
    step st (setWorld st w).

Inductive steps : state World → state World → Prop :=
| steps_refl st : steps st st
| steps_cons st1 st2 st3 : step st1 st2 → steps st2 st3 → steps st1 st3.


(** The state after a one-time method or a group member has run on
    [st] and left the host in [w]: the name is in the handler's set and
    one more Proxy exists. *)
Definition recorded (st : state World) (w : World) (h : handler)
    (name : string) : state World :=
  State w (<[hid h := {[name]} ∪ called st h]> (calledSets st))
        (nextHandler st) (S (nextProxy st)).

(** The state after a repeatable method has run. *)
Definition unrecorded (st : state World) (w : World) : state World :=
  State w (calledSets st) (nextHandler st) (S (nextProxy st)).

(** Sequencing of two steps of a chain: the second runs on the value the
    first returned, a failure ends the chain. *)
Definition andThen (r : state World * completion wvalue)
    (k : state World → wvalue → state World * completion wvalue)
    : state World * completion wvalue :=
  match r with
  | (st, Normal v) => k st v
  | (st, Throw e) => (st, Throw e)
  end.




(** One call of a fluent chain: [.m(...args)] or [.g.k(...args)]. *)
Inductive chainCall : Type :=
| Method (m : string) (args : list value)
| Group (g k : string) (args : list value).

(** The name a call leaves in the called set when it returns a view:
    [called.add(prop)] under [isOneTime] in the method closure, always in
    a group closure. *)
Definition consumes (c : chainCall) : list string :=
  match c with
  | Method m _ => if startsWith m "with" then [m] else []
  | Group g _ _ => [g]
  end.

Definition callStep (st : state World) (recv : wvalue) (c : chainCall)
    : state World * completion wvalue :=
  match c with
  | Method m args => callMember st recv m (constArgs args)
  | Group g k args => callGroupMember st recv g k (constArgs args)
  end.

(** [recv.c1.c2...]: each call is made on what the call before returned;
    a failure ends the chain. *)
Fixpoint runChain (st : state World) (recv : wvalue) (calls : list chainCall)
    : state World * completion wvalue :=
  match calls with
  | [] => (st, Normal recv)
  | c :: rest =>
    match callStep st recv c with
    | (st1, Normal recv1) => runChain st1 recv1 rest
    | (st1, Throw e) => (st1, Throw e)
    end
  end.

(** The same call made on the inner builder itself:
    [target.m(...args)], resp. [target.g.k(...args)]. *)
Definition applyStep (w : World) (tgt : value) (c : chainCall) : option World :=
  match c with
  | Method m args =>
    match invoke (getProp w tgt (KString m)) tgt args w with
    | (w1, Normal _) => Some w1
    | (_, Throw _) => None
    end
  | Group g k args =>
    let val := getProp w tgt (KString g) in
    match invoke (getProp w val (KString k)) val args w with
    | (w1, Normal _) => Some w1
    | (_, Throw _) => None
    end
  end.

Fixpoint applyChain (w : World) (tgt : value) (calls : list chainCall)
    : option World :=
  match calls with
  | [] => Some w
  | c :: rest =>
    match applyStep w tgt c with
    | Some w1 => applyChain w1 tgt rest
    | None => None
    end
  end.

End Chains.

(** ** The read of a property of a Proxy, as the engine performs it *)

(** What [[GetOwnProperty]] on the target can report that binds a [get]
    trap: an own data property that is neither configurable nor writable
    (every own property of a frozen object is one), with its value, or an
    own accessor property that is not configurable and has no getter. *)
Inductive fixedProp : Type :=
| FixedData (v : value)
| FixedNoGetter.

(** Property attributes of inner objects.  [hasGetter] tells where
    [o[k]] would run a getter, that is, where the plain lookup [getProp]
    of the host does not describe the read. *)
Class Descriptors (World : Type) := {
  ownFixed : World → value → key → option fixedProp;
  hasGetter : World → value → key → bool
}.

(** [SameValue(trapResult, v)]: the closures, group proxies and views
    the trap makes are new objects, never a value of the inner builder. *)
Definition sameValue (trapResult : wvalue) (v : value) : bool :=
  match trapResult with
  | WValue x => bool_decide (x = v)
  | _ => false
  end.

Section EngineRead.
Context {World : Type} `{HostW : Host World} `{DescW : Descriptors World}.

(** [[Get]] of a Proxy: the trap is called, and its answer is checked
    against an own fixed property of the target; a mismatch is a
    [TypeError] of the engine. *)
Definition proxyGet (st : state World) (p : proxy) (k : key)
    : completion wvalue :=
  match get st (phandler p) (target p) k with
  | Throw e => Throw e
  | Normal trapResult =>
    match ownFixed (world st) (target p) k with
    | Some (FixedData v) =>
      if sameValue trapResult v then Normal trapResult else Throw TypeError
    | Some FixedNoGetter =>
      if sameValue trapResult VUndefined then Normal trapResult
      else Throw TypeError
    | None => Normal trapResult
    end
  end.

End EngineRead.

(** ** The builders of the test suite and of the examples, on a small heap *)

Module Fixtures.

(** The function bodies that occur in [tests/createBuilder.test.ts]
    (its five builder classes, named here after what they exercise) and
    in the basic pizza example, plus [Port], a builder whose members
    can fail, which the repository has none of. *)
Inductive code : Type :=
| HelloClass | Hello_withValue | Hello_build
| NameClass | Name_withName | Name_build
| TagClass | Tag_addTag | Tag_build
| OptionsClass | Options_enable | Options_disable | Options_build
| RunClass | Run_run
| PizzaClass | Pizza_withSize | Pizza_addTopping
| Pizza_glutenFree | Pizza_extraCheese | Pizza_build
| PortClass | Port_withPort | Port_strict | Port_lax | Port_build.

Inductive obj : Type :=
| Obj (proto : option nat) (fields : list (key * value))
| Arr (elems : list value)
  (** a function object; [self] is the [this] an arrow function captured *)
| Fn (c : code) (self : value).

Abbreviation heap := (list obj).

Fixpoint field (fs : list (key * value)) (k : key) : option value :=
  match fs with
  | [] => None
  | (k', v) :: rest => if decide (k = k') then Some v else field rest k
  end.

Fixpoint setField (fs : list (key * value)) (k : key) (v : value)
    : list (key * value) :=
  match fs with
  | [] => [(k, v)]
  | (k', v') :: rest =>
    if decide (k = k') then (k, v) :: rest else (k', v') :: setField rest k v
  end.

Definition indexName (i : nat) : string :=
  NilEmpty.string_of_uint (Nat.to_uint i).

Fixpoint element (es : list value) (i : nat) (s : string) : option value :=
  match es with
  | [] => None
  | e :: rest => if String.eqb s (indexName i) then Some e else element rest (S i) s
  end.

Definition own (w : heap) (a : nat) (k : key) : option value :=
  match w !! a with
  | Some (Obj _ fs) => field fs k
  | Some (Arr es) =>
    match k with
    | KString s =>
      if String.eqb s "length" then Some (VNumber (Z.of_nat (length es)))
      else element es 0 s
    | KSymbol _ => None
    end
  | _ => None
  end.

Definition protoOf (w : heap) (a : nat) : option nat :=
  match w !! a with Some (Obj p _) => p | _ => None end.

(** [v[k]]: own properties, then those of the class prototype. *)
Definition read (w : heap) (v : value) (k : key) : value :=
  match v with
  | VObject a =>
    match own w a k with
    | Some x => x
    | None =>
      match protoOf w a with
      | Some p => default VUndefined (own w p k)
      | None => VUndefined
      end
    end
  | _ => VUndefined
  end.

Definition ownStringKey (kv : key * value) : option string :=
  match kv.1 with KString s => Some s | KSymbol _ => None end.

(** [for (const key in v)]: enumerable string keys; class methods on
    the prototype are not enumerable. *)
Definition enumerate (w : heap) (v : value) : list string :=
  match v with
  | VObject a =>
    match w !! a with
    | Some (Obj _ fs) => omap ownStringKey fs
    | Some (Arr es) => map indexName (seq 0 (length es))
    | _ => []
    end
  | _ => []
  end.

(** [v[k] = x] on a plain object *)
Definition write (w : heap) (v : value) (k : string) (x : value) : option heap :=
  match v with
  | VObject a =>
    match w !! a with
    | Some (Obj p fs) => Some (<[a := Obj p (setField fs (KString k) x)]> w)
    | _ => None
    end
  | _ => None
  end.

(** [v.push(x)] on an array *)
Definition push (w : heap) (v : value) (x : value) : option heap :=
  match v with
  | VObject a =>
    match w !! a with
    | Some (Arr es) => Some (<[a := Arr (es ++ [x])]> w)
    | _ => None
    end
  | _ => None
  end.

Definition arg (i : nat) (args : list value) : value := nth i args VUndefined.

(** The string a template literal makes of a value; the source text
    of a function is not modelled, a symbol is a [TypeError]. *)
Definition toStr (v : value) : option string :=
  match v with
  | VUndefined => Some "undefined"
  | VNull => Some "null"
  | VBoolean true => Some "true"
  | VBoolean false => Some "false"
  | VNumber n => Some (NilEmpty.string_of_int (Z.to_int n))
  | VString s => Some s
  | VObject _ => Some "[object Object]"
  | VFunction _ => Some ""
  | VSymbol _ => None
  end.

(** A statement that fails with a [TypeError] when it touches a member
    of something that has none, and otherwise returns [v]. *)
Definition returning (w : heap) (o : option heap) (v : value)
    : heap * completion value :=
  match o with
  | Some w' => (w', Normal v)
  | None => (w, Throw TypeError)
  end.

Definition isNullish (v : value) : bool :=
  match v with VUndefined | VNull => true | _ => false end.

(** Addresses of the class objects in the initial heap. *)
Definition helloProto := 0.
Definition HelloBuilder := VFunction 1.
Definition nameProto := 4.
Definition NameBuilder := VFunction 5.
Definition tagProto := 8.
Definition optionsProto := 12.
Definition OptionsBuilder := VFunction 13.
Definition runProto := 15.
Definition pizzaProto := 18.
Definition PizzaBuilder := VFunction 19.
Definition portProto := 23.
Definition PortBuilder := VFunction 24.

Definition heap0 : heap :=
  [ Obj None [(KString "withValue", VFunction 2); (KString "build", VFunction 3)];
    Fn HelloClass VUndefined; Fn Hello_withValue VUndefined; Fn Hello_build VUndefined;
    Obj None [(KString "withName", VFunction 6); (KString "build", VFunction 7)];
    Fn NameClass VUndefined; Fn Name_withName VUndefined; Fn Name_build VUndefined;
    Obj None [(KString "addTag", VFunction 10); (KString "build", VFunction 11)];
    Fn TagClass VUndefined; Fn Tag_addTag VUndefined; Fn Tag_build VUndefined;
    Obj None [(KString "build", VFunction 14)];
    Fn OptionsClass VUndefined; Fn Options_build VUndefined;
    Obj None [(KString "run", VFunction 17)];
    Fn RunClass VUndefined; Fn Run_run VUndefined;
    Obj None [(KString "withSize", VFunction 20); (KString "addTopping", VFunction 21);
              (KString "build", VFunction 22)];
    Fn PizzaClass VUndefined; Fn Pizza_withSize VUndefined;
    Fn Pizza_addTopping VUndefined; Fn Pizza_build VUndefined;
    Obj None [(KString "withPort", VFunction 25); (KString "build", VFunction 26)];
    Fn PortClass VUndefined; Fn Port_withPort VUndefined; Fn Port_build VUndefined ].

(** [new cls(...args)]: the field initialisers of each class, in order. *)
Definition instantiate (c : code) (w : heap) : option (heap * value) :=
  let i := length w in
  match c with
  | HelloClass =>
    Some (w ++ [Obj (Some helloProto) [(KString "_value", VString "")]], VObject i)
  | NameClass => Some (w ++ [Obj (Some nameProto) []], VObject i)
  | TagClass =>
    Some (w ++ [Obj (Some tagProto) [(KString "log", VObject (i + 1))]; Arr []],
          VObject i)
  | OptionsClass =>
    Some (w ++ [Obj (Some optionsProto)
                  [(KString "result", VObject (i + 1)); (KString "options", VObject (i + 4))];
                Arr [];
                Fn Options_enable (VObject i); Fn Options_disable (VObject i);
                Obj None [(KString "enable", VFunction (i + 2));
                          (KString "disable", VFunction (i + 3))]],
          VObject i)
  | RunClass => Some (w ++ [Obj (Some runProto) []], VObject i)
  | PizzaClass =>
    Some (w ++ [Obj (Some pizzaProto)
                  [(KString "_size", VString "medium");
                   (KString "_toppings", VObject (i + 1));
                   (KString "options", VObject (i + 2));
                   (KString "preferences", VObject (i + 5))];
                Arr [];
                Obj None [(KString "glutenFree", VBoolean false);
                          (KString "extraCheese", VBoolean false)];
                Fn Pizza_glutenFree (VObject i); Fn Pizza_extraCheese (VObject i);
                Obj None [(KString "glutenFree", VFunction (i + 3));
                          (KString "extraCheese", VFunction (i + 4))]],
          VObject i)
  | PortClass =>
    Some (w ++ [Obj (Some portProto)
                  [(KString "_port", VNumber 0);
                   (KSymbol 0, VString "PortBuilder");
                   (KString "mode", VObject (i + 3))];
                Fn Port_strict (VObject i); Fn Port_lax (VObject i);
                Obj None [(KString "strict", VFunction (i + 1));
                          (KString "lax", VFunction (i + 2))]],
          VObject i)
  | _ => None
  end.

(** The bodies.  [thisArg] is the receiver; arrow functions use [self]. *)
Definition run (c : code) (self thisArg : value) (args : list value) (w : heap)
    : heap * completion value :=
  match c with
  | Hello_withValue => returning w (write w thisArg "_value" (arg 0 args)) thisArg
  | Hello_build =>
    if isNullish thisArg then (w, Throw TypeError)
    else match toStr (read w thisArg (KString "_value")) with
         | Some s => (w, Normal (VString ("Hello, " +:+ s +:+ "!")))
         | None => (w, Throw TypeError)
         end
  | Name_withName => (w, Normal thisArg)
  | Name_build => (w, Normal (VBoolean true))
  | Tag_addTag =>
    if isNullish thisArg then (w, Throw TypeError)
    else returning w (push w (read w thisArg (KString "log")) (arg 0 args)) thisArg
  | Tag_build =>
    if isNullish thisArg then (w, Throw TypeError)
    else (w, Normal (read w thisArg (KString "log")))
  | Options_enable =>
    returning w (push w (read w self (KString "result")) (VString "enabled")) self
  | Options_disable =>
    returning w (push w (read w self (KString "result")) (VString "disabled")) self
  | Options_build =>
    if isNullish thisArg then (w, Throw TypeError)
    else (w, Normal (read w thisArg (KString "result")))
  | Run_run => (w, Normal (VString "done"))
  | Pizza_withSize => returning w (write w thisArg "_size" (arg 0 args)) thisArg
  | Pizza_addTopping =>
    if isNullish thisArg then (w, Throw TypeError)
    else returning w (push w (read w thisArg (KString "_toppings")) (arg 0 args)) thisArg
  | Pizza_glutenFree =>
    returning w (write w (read w self (KString "options")) "glutenFree" (VBoolean true)) self
  | Pizza_extraCheese =>
    returning w (write w (read w self (KString "options")) "extraCheese" (VBoolean true)) self
  | Pizza_build =>
    if isNullish thisArg then (w, Throw TypeError)
    else (w ++ [Obj None [(KString "size", read w thisArg (KString "_size"));
                          (KString "toppings", read w thisArg (KString "_toppings"));
                          (KString "options", read w thisArg (KString "options"))]],
          Normal (VObject (length w)))
  | Port_withPort =>
    if String.eqb (typeof (arg 0 args)) "number"
    then returning w (write w thisArg "_port" (arg 0 args)) thisArg
    else (w, Throw (Thrown (VString "bad port")))
  | Port_strict => (w, Throw (Thrown (VString "unsupported")))
  | Port_lax => (w, Normal self)
  | Port_build =>
    if isNullish thisArg then (w, Throw TypeError)
    else (w, Normal (read w thisArg (KString "_port")))
  (* a class constructor cannot be invoked without [new] *)
  | HelloClass | NameClass | TagClass | OptionsClass | RunClass
  | PizzaClass | PortClass => (w, Throw TypeError)
  end.

#[global] Instance heapHost : Host heap := {|
  getProp := read;
  forIn := enumerate;
  callFunction a thisArg args w :=
    match w !! a with
    | Some (Fn c self) => run c self thisArg args w
    | _ => (w, Throw TypeError)
    end;
  construct cls args w :=
    match cls with
    | VFunction a =>
      match w !! a with
      | Some (Fn c _) =>
        match instantiate c w with
        | Some (w', v) => (w', Normal v)
        | None => (w, Throw TypeError)
        end
      | _ => (w, Throw TypeError)
      end
    | _ => (w, Throw TypeError)
    end
|}.

(** Nothing wrapped yet. *)
Definition state0 : state heap := State heap0 ∅ 0 0.

(** The elements of the array at [v], for comparing results with
    [toEqual]. *)
Definition elements (w : heap) (v : value) : option (list value) :=
  match v with
  | VObject a => match w !! a with Some (Arr es) => Some es | _ => None end
  | _ => None
  end.

(** [createBuilderFactory(cls)()] on the initial heap. *)
Definition wrap (cls : value) : state heap * completion wvalue :=
  callFactory state0 (createBuilderFactory [cls]) [].

(** The view a wrapping returned. *)
Definition viewOf (r : state heap * completion wvalue) : proxy :=
  match r.2 with
  | Normal (WProxy p) => p
  | _ => Proxy 0 VUndefined (Handler 0 VUndefined)
  end.

End Fixtures.

(** ** The same builders on a heap that knows which objects are frozen *)

Module Frozen.

#[global] Instance code_eq_dec : EqDecision Fixtures.code.
Proof. solve_decision. Defined.

#[global] Instance obj_eq_dec : EqDecision Fixtures.obj.
Proof. solve_decision. Defined.

(** The heap of [Fixtures] and the addresses [Object.freeze] was
    applied to. *)
Record store : Type := Store {
  objects : list Fixtures.obj;
  frozen : list nat
}.

(** The bodies of [Fixtures] are strict code that changes at most one
    object: when that object is frozen the assignment (or [push]) is a
    [TypeError] and nothing has changed. *)
Definition guard (w : store) (res : list Fixtures.obj * completion value)
    : store * completion value :=
  if forallb (λ a, bool_decide (res.1 !! a = objects w !! a)) (frozen w)
  then (Store res.1 (frozen w), res.2)
  else (w, Throw TypeError).

#[global] Instance frozenHost : Host store := {|
  getProp w := Fixtures.read (objects w);
  forIn w := Fixtures.enumerate (objects w);
  callFunction a thisArg args w :=
    guard w (callFunction (Host := Fixtures.heapHost) a thisArg args (objects w));
  construct cls args w :=
    guard w (construct (Host := Fixtures.heapHost) cls args (objects w))
|}.

(** Every own property of a frozen object is a fixed data property; the
    classes of [Fixtures] declare no accessors. *)
#[global] Instance frozenDescriptors : Descriptors store := {|
  ownFixed w v k :=
    match v with
    | VObject a =>
      if bool_decide (a ∈ frozen w)
      then FixedData <$> Fixtures.own (objects w) a k
      else None
    | _ => None
    end;
  hasGetter _ _ _ := false
|}.

(** [Object.freeze(v)]; applied to a view it reaches the target, the
    handler having no trap for it. *)
Definition freeze (w : store) (v : value) : store :=
  match v with
  | VObject a => Store (objects w) (a :: frozen w)
  | _ => w
  end.

Definition state0 : state store := State (Store Fixtures.heap0 []) ∅ 0 0.

(** [createBuilderFactory(cls)()] on the initial heap. *)
Definition wrap (cls : value) : state store * completion wvalue :=
  callFactory state0 (createBuilderFactory [cls]) [].

Definition viewOf (r : state store * completion wvalue) : proxy :=
  match r.2 with
  | Normal (WProxy p) => p
  | _ => Proxy 0 VUndefined (Handler 0 VUndefined)
  end.

(** [const b = createBuilderFactory(cls)(); Object.freeze(b)] *)
Definition wrapFrozen (cls : value) : state store :=
  let r := wrap cls in
  setWorld r.1 (freeze (world r.1) (target (viewOf r))).

End Frozen.

(** * Properties *)

(** ** Basic facts about values and the called sets *)

Section Facts.
Context {World : Type} `{HostW : Host World}.
Implicit Types (st : state World) (h : handler) (p : proxy) (w : World).
Implicit Types (m g k b : string) (v val tgt : value) (args : list value).

Lemma typeof_function v : typeof v = "function" ↔ ∃ f, v = VFunction f.
Proof.
  split.
  - destruct v; simpl; try discriminate. eauto.
  - intros [f ->]. reflexivity.
Qed.

Lemma invoke_not_function v thisArg args w :
  typeof v ≠ "function" → invoke v thisArg args w = (w, Throw TypeError).
Proof. destruct v; simpl; intros Hty; try reflexivity. by destruct Hty. Qed.

Lemma typeof_object_not_function v : typeof v = "object" → typeof v ≠ "function".
Proof. intros ->. discriminate. Qed.

Lemma calledHas_true st h m : calledHas st h m = true ↔ m ∈ called st h.
Proof. unfold calledHas. apply bool_decide_eq_true. Qed.

Lemma calledHas_false st h m : calledHas st h m = false ↔ m ∉ called st h.
Proof. unfold calledHas. apply bool_decide_eq_false. Qed.

Lemma called_setWorld st w h : called (setWorld st w) h = called st h.
Proof. reflexivity. Qed.

Lemma called_calledAdd st h h' m :
  called (calledAdd st h m) h' =
  if decide (hid h = hid h') then {[m]} ∪ called st h else called st h'.
Proof.
  unfold called, calledAdd. simpl. rewrite lookup_insert.
  by case_decide.
Qed.

Lemma called_calledAdd_mono st h h' m :
  called st h' ⊆ called (calledAdd st h m) h'.
Proof.
  rewrite called_calledAdd. case_decide as Heq; [|done].
  unfold called. rewrite Heq. set_solver.
Qed.

(** The state a method or group closure leaves behind. *)
Lemma finish_mono st w r (record : bool) h tgt m h' :
  called st h' ⊆ called (finish st w r record h tgt m).1 h'
  ∧ nextHandler (finish st w r record h tgt m).1 = nextHandler st
  ∧ nextProxy st ≤ nextProxy (finish st w r record h tgt m).1.
Proof.
  unfold finish. destruct r as [x|e]; simpl.
  - destruct record; simpl; repeat split; try lia; try done.
    apply (called_calledAdd_mono (setWorld st w)).
  - repeat split; try lia; done.
Qed.

Lemma call_mono st f thisArg args h' :
  called st h' ⊆ called (call st f thisArg args).1 h'
  ∧ nextHandler (call st f thisArg args).1 = nextHandler st
  ∧ nextProxy st ≤ nextProxy (call st f thisArg args).1.
Proof.
  destruct f as [v|q|tgt prop|h tgt prop val one|g|ms]; simpl.
  - destruct (invoke v thisArg args (world st)); simpl. repeat split; try lia; done.
  - repeat split; try lia; done.
  - destruct (invoke _ tgt [] (world st)); simpl. repeat split; try lia; done.
  - destruct (invoke val tgt args (world st)). apply finish_mono.
  - destruct (invoke _ (g_value g) args (world st)). apply finish_mono.
  - repeat split; try lia; done.
Qed.

Lemma createBuilder_mono st cls bm args h' :
  hid h' < nextHandler st →
  called (createBuilder st cls bm args).1 h' = called st h'.
Proof.
  intros Hlt. unfold createBuilder.
  destruct (construct cls args (world st)) as [w [inst|e]]; simpl; [|done].
  unfold called. simpl. rewrite lookup_insert_ne; [done|lia].
Qed.

Lemma createBuilder_nextHandler st cls bm args :
  nextHandler st ≤ nextHandler (createBuilder st cls bm args).1
  ∧ nextProxy st ≤ nextProxy (createBuilder st cls bm args).1.
Proof.
  unfold createBuilder.
  destruct (construct cls args (world st)) as [w [inst|e]]; simpl; lia.
Qed.

Lemma step_mono st st' h' :
  step st st' →
  hid h' < nextHandler st →
  called st h' ⊆ called st' h'
  ∧ nextHandler st ≤ nextHandler st'
  ∧ nextProxy st ≤ nextProxy st'.
Proof.
  intros Hstep Hlt. destruct Hstep as [st f thisArg args|st cls bm args|st w].
  - destruct (call_mono st f thisArg args h') as (H1 & H2 & H3).
    repeat split; [done|lia|done].
  - rewrite createBuilder_mono by done.
    destruct (createBuilder_nextHandler st cls bm args). done.
  - simpl. done.
Qed.

(** The called set of a handler only ever grows. *)
Lemma steps_mono st st' h' :
  steps st st' →
  hid h' < nextHandler st →
  called st h' ⊆ called st' h'
  ∧ nextHandler st ≤ nextHandler st'
  ∧ nextProxy st ≤ nextProxy st'.
Proof.
  induction 1 as [st|st1 st2 st3 Hstep Hsteps IH]; intros Hlt.
  - done.
  - destruct (step_mono _ _ h' Hstep Hlt) as (H1 & H2 & H3).
    destruct IH as (H4 & H5 & H6); [lia|].
    repeat split; [set_solver|lia|lia].
Qed.

End Facts.

(** ** What the [get] trap answers, case by case *)

Section Dispatch.
Context {World : Type} `{HostW : Host World}.
Implicit Types (st : state World) (h : handler) (p : proxy) (w : World).
Implicit Types (m g k b : string) (v val tgt : value) (args : list value).

Lemma strictEqualsString_true m v : strictEqualsString m v = true ↔ v = VString m.
Proof.
  destruct v; simpl; try (split; [discriminate|intros [=]]).
  rewrite String.eqb_eq. split; [by intros ->|by intros [= ->]].
Qed.

Lemma strictEqualsString_false m v : strictEqualsString m v = false ↔ VString m ≠ v.
Proof.
  rewrite <- not_true_iff_false, strictEqualsString_true. split; intros Hn Heq; by apply Hn.
Qed.

Lemma get_build st h tgt b :
  buildMethod h = VString b → get st h tgt (KString b) = Normal (WBuildFn tgt b).
Proof.
  intros Hb. unfold get.
  assert (strictEqualsString b (buildMethod h) = true) as ->; [|done].
  by apply strictEqualsString_true.
Qed.

Lemma get_method st h tgt m :
  VString m ≠ buildMethod h →
  typeof (getProp (world st) tgt (KString m)) = "function" →
  get st h tgt (KString m) =
    if startsWith m "with" && calledHas st h m
    then Throw (Error (methodMessage m))
    else Normal (WMethodFn h tgt m (getProp (world st) tgt (KString m))
                           (startsWith m "with")).
Proof.
  intros Hb Hty. unfold get.
  apply strictEqualsString_false in Hb. rewrite Hb, Hty. reflexivity.
Qed.

Lemma get_object st h tgt g :
  VString g ≠ buildMethod h →
  typeof (getProp (world st) tgt (KString g)) = "object" →
  getProp (world st) tgt (KString g) ≠ VNull →
  get st h tgt (KString g) =
    if calledHas st h g
    then Throw (Error (groupMessage g))
    else Normal (WGroupProxy
           (map (λ k, (k, GroupFn h tgt (getProp (world st) tgt (KString g)) k g))
                (forIn (world st) (getProp (world st) tgt (KString g))))).
Proof.
  intros Hb Hty Hnull. unfold get.
  apply strictEqualsString_false in Hb. rewrite Hb, Hty. simpl.
  destruct (getProp (world st) tgt (KString g)); try done.
Qed.



Lemma lookupMember_map_inv h tgt val g (keys : list string) k f :
  lookupMember (map (λ k', (k', GroupFn h tgt val k' g)) keys) k = Some f →
  f = GroupFn h tgt val k g.
Proof.
  induction keys as [|k0 keys IH]; simpl; [done|].
  destruct (String.eqb k k0) eqn:Heq; [|done].
  apply String.eqb_eq in Heq. subst. by intros [= <-].
Qed.

Lemma called_recorded st w h name :
  called (recorded st w h name) h = {[name]} ∪ called st h.
Proof. unfold called, recorded. simpl. by rewrite lookup_insert_eq. Qed.


(** Conversely, a member call that is not the finalize method and
    returns normally went through a method closure. *)
Lemma callMember_normal_inv st p m (argsE : argsExpr) st1 r :
  VString m ≠ buildMethod (phandler p) →
  callMember st (WProxy p) m argsE = (st1, Normal r) →
  ∃ w0 args w1 x,
    typeof (getProp (world st) (target p) (KString m)) = "function"
    ∧ argsE (world st) = (w0, Normal args)
    ∧ invoke (getProp (world st) (target p) (KString m)) (target p) args w0
        = (w1, Normal x)
    ∧ st1 = (if startsWith m "with" then recorded st w1 (phandler p) m
             else unrecorded st w1)
    ∧ r = WProxy (Proxy (nextProxy st) (target p) (phandler p)).
Proof.
  intros Hb. unfold callMember, getMember.
  destruct (decide (typeof (getProp (world st) (target p) (KString m)) = "function"))
    as [Hty|Hty].
  - rewrite get_method by done.
    destruct (startsWith m "with" && calledHas st (phandler p) m) eqn:Hc; [done|].
    destruct (argsE (world st)) as [w0 [args|e]] eqn:Hargs; [|done].
    simpl.
    destruct (invoke _ (target p) args w0) as [w1 [x|e]] eqn:Hinv; simpl; [|done].
    intros [= <- <-]. exists w0, args, w1, x.
    destruct (startsWith m "with"); repeat split; done.
  - unfold get. apply strictEqualsString_false in Hb. rewrite Hb.
    apply String.eqb_neq in Hty. rewrite Hty.
    destruct (String.eqb _ "object" && notNull _).
    + destruct (calledHas st (phandler p) m); [done|].
      destruct (argsE (world st)) as [w0 [args|e]]; done.
    + destruct (argsE (world st)) as [w0 [args|e]]; [|done]. simpl.
      rewrite invoke_not_function by (by apply String.eqb_neq). done.
Qed.


End Dispatch.

(** ** Group calls, and what a recorded name does to later accesses *)

Section Consumption.
Context {World : Type} `{HostW : Host World}.
Implicit Types (st : state World) (h : handler) (p : proxy) (w : World).
Implicit Types (m g k b : string) (v val tgt : value) (args : list value).


Lemma finish_normal st w x (record : bool) h tgt name :
  finish st w (Normal x) record h tgt name =
    (if record then recorded st w h name else unrecorded st w,
     Normal (WProxy (Proxy (nextProxy st) tgt h))).
Proof. by destruct record. Qed.

Lemma finish_throw st w e (record : bool) h tgt name :
  finish st w (Throw e) record h tgt name = (setWorld st w, Throw e).
Proof. reflexivity. Qed.


(** A one-time method whose name is in the called set is refused at the
    property access. *)
Lemma method_refused st p m (argsE : argsExpr) :
  startsWith m "with" = true →
  VString m ≠ buildMethod (phandler p) →
  typeof (getProp (world st) (target p) (KString m)) = "function" →
  m ∈ called st (phandler p) →
  getMember st (WProxy p) (KString m) = Throw (Error (methodMessage m))
  ∧ callMember st (WProxy p) m argsE = (st, Throw (Error (methodMessage m))).
Proof.
  intros Hone Hnb Hty Hin.
  assert (getMember st (WProxy p) (KString m) = Throw (Error (methodMessage m)))
    as Hget.
  { unfold getMember. rewrite get_method by done. rewrite Hone. simpl.
    by apply calledHas_true in Hin as ->. }
  split; [exact Hget|]. unfold callMember. by rewrite Hget.
Qed.

(** A group whose name is in the called set is refused at the property
    access, whichever member was asked for. *)
Lemma group_refused st p g k (argsE : argsExpr) :
  VString g ≠ buildMethod (phandler p) →
  typeof (getProp (world st) (target p) (KString g)) = "object" →
  getProp (world st) (target p) (KString g) ≠ VNull →
  g ∈ called st (phandler p) →
  getMember st (WProxy p) (KString g) = Throw (Error (groupMessage g))
  ∧ callGroupMember st (WProxy p) g k argsE = (st, Throw (Error (groupMessage g))).
Proof.
  intros Hnb Hty Hnull Hin.
  assert (getMember st (WProxy p) (KString g) = Throw (Error (groupMessage g)))
    as Hget.
  { unfold getMember. rewrite get_object by done.
    by apply calledHas_true in Hin as ->. }
  split; [exact Hget|]. unfold callGroupMember. by rewrite Hget.
Qed.

(** A recorded name stays recorded. *)
Lemma recorded_stays st w h name st2 :
  hid h < nextHandler st →
  steps (recorded st w h name) st2 →
  name ∈ called st2 h.
Proof.
  intros Hlive Hsteps.
  destruct (steps_mono _ _ h Hsteps) as (Hsub & _); [done|].
  apply Hsub. rewrite called_recorded. set_solver.
Qed.

End Consumption.

(** ** One-time methods *)

Section OneTime.
Context {World : Type} `{HostW : Host World}.
Implicit Types (st : state World) (h : handler) (p : proxy) (w : World).
Implicit Types (m g k b : string) (v val tgt : value) (args : list value).


(** C2, as the code has it.  Once [view.m(...)] has returned for a
    one-time method [m], every later access to [m] through a view of the
    same handler, whatever else happened to the state in between, raises
    [Error("Method 'm' already called")]; the failure comes from the
    property access, so the argument expressions are not evaluated, the
    inner method does not run and the state is left as it was. *)
Theorem one_time_twice_rejected st p m (argsE1 argsE2 : argsExpr) st1 r st2 p2 :
  startsWith m "with" = true →
  VString m ≠ buildMethod (phandler p) →
  hid (phandler p) < nextHandler st →
  callMember st (WProxy p) m argsE1 = (st1, Normal r) →
  steps st1 st2 →
  phandler p2 = phandler p →
  typeof (getProp (world st2) (target p2) (KString m)) = "function" →
  getMember st2 (WProxy p2) (KString m)
    = Throw (Error ("Method '" +:+ m +:+ "' already called"))
  ∧ callMember st2 (WProxy p2) m argsE2
    = (st2, Throw (Error ("Method '" +:+ m +:+ "' already called"))).
Proof.
  intros Hone Hnb Hlive Hcall Hsteps Hh Hty.
  destruct (callMember_normal_inv _ _ _ _ _ _ Hnb Hcall)
    as (w0 & args & w1 & x & _ & _ & _ & -> & _).
  rewrite Hone in Hsteps.
  apply (method_refused st2 p2 m argsE2); [done|by rewrite Hh|done|].
  rewrite Hh. by apply (recorded_stays st w1).
Qed.

End OneTime.


(** The second test of the suite: [withName] twice on the same view. *)
Lemma one_time_twice_rejected_witness :
  let st := (Fixtures.wrap Fixtures.NameBuilder).1 in
  let p := Fixtures.viewOf (Fixtures.wrap Fixtures.NameBuilder) in
  let st1 := (callMember st (WProxy p) "withName" (constArgs [VString "first"])).1 in
  callMember st1 (WProxy p) "withName" (constArgs [VString "second"])
    = (st1, Throw (Error "Method 'withName' already called")).
Proof.
  intros st p st1.
  refine (proj2 (one_time_twice_rejected st p "withName"
                   (constArgs [VString "first"]) (constArgs [VString "second"])
                   st1 (WProxy (Proxy 1 (target p) (phandler p))) st1 p
                   _ _ _ _ _ _ _)).
  - reflexivity.
  - discriminate.
  - vm_compute. lia.
  - vm_compute. reflexivity.
  - apply steps_refl.
  - reflexivity.
  - reflexivity.
Defined.

(** ** The finalize method and symbol keys *)

Section Finalize.
Context {World : Type} `{HostW : Host World}.
Implicit Types (st : state World) (h : handler) (p : proxy) (w : World).
Implicit Types (m g k b : string) (v val tgt : value) (args : list value).


(** The trap answers a symbol key with [undefined] before the inner
    builder is looked at, in every state of the host. *)
Lemma trap_symbol_key st h tgt n :
  get st h tgt (KSymbol n) = Normal (WValue VUndefined).
Proof. reflexivity. Qed.

End Finalize.


(** A builder with a member under a symbol key: the trap hides it. *)
Example symbol_key_hidden :
  let st := (Fixtures.wrap Fixtures.PortBuilder).1 in
  let p := Fixtures.viewOf (Fixtures.wrap Fixtures.PortBuilder) in
  getProp (world st) (target p) (KSymbol 0) = VString "PortBuilder"
  ∧ getMember st (WProxy p) (KSymbol 0) = Normal (WValue VUndefined).
Proof. split; reflexivity. Qed.

(** ** Repeatable methods *)

Section Repeatable.
Context {World : Type} `{HostW : Host World}.
Implicit Types (st : state World) (h : handler) (p : proxy) (w : World).
Implicit Types (m g k b : string) (v val tgt : value) (args : list value).



End Repeatable.


(** ** Group namespaces *)

Section Groups.
Context {World : Type} `{HostW : Host World}.
Implicit Types (st : state World) (h : handler) (p : proxy) (w : World).
Implicit Types (m g k b : string) (v val tgt : value) (args : list value).



End Groups.



(** ** Views, handlers and the called sets *)

Section Views.
Context {World : Type} `{HostW : Host World}.
Implicit Types (st : state World) (h : handler) (p : proxy) (w : World).
Implicit Types (m g k b : string) (v val tgt : value) (args : list value).




End Views.




(** ** The factories *)



(** ** Closures kept apart from the access that made them *)

Section Detached.
Context {World : Type} `{HostW : Host World}.
Implicit Types (st : state World) (h : handler) (p : proxy) (w : World).
Implicit Types (m g k b : string) (v val tgt : value) (args : list value).

(** The called set is consulted when a member is read, not when the
    closure that was read is called: the closure of a one-time method
    runs the inner method and returns a view in every state, also when
    its name is in the called set already. *)
Theorem method_closure_runs_unchecked st h tgt m val thisArg args w1 x :
  m ∈ called st h →
  invoke val tgt args (world st) = (w1, Normal x) →
  call st (WMethodFn h tgt m val true) thisArg args
  = (recorded st w1 h m, Normal (WProxy (Proxy (nextProxy st) tgt h))).
Proof. intros _ Hinv. simpl. rewrite Hinv. reflexivity. Qed.

End Detached.

(** [const f = builder.withValue; f('a'); f('b')]: the second call is
    not refused, and [build()] greets ['b']. *)
Lemma method_closure_runs_unchecked_witness :
  let st := (Fixtures.wrap Fixtures.HelloBuilder).1 in
  let p := Fixtures.viewOf (Fixtures.wrap Fixtures.HelloBuilder) in
  ∃ f st1 r1 st2 p2,
    getMember st (WProxy p) (KString "withValue") = Normal f
    ∧ call st f VUndefined [VString "a"] = (st1, Normal r1)
    ∧ call st1 f VUndefined [VString "b"] = (st2, Normal (WProxy p2))
    ∧ (callMember st2 (WProxy p2) "build" (constArgs [])).2
      = Normal (WValue (VString "Hello, b!")).
Proof.
  intros st p. eexists _, _, _, _, _.
  split; [vm_compute; reflexivity|].
  split; [vm_compute; reflexivity|].
  split.
  - eapply method_closure_runs_unchecked.
    + vm_compute. set_solver.
    + vm_compute. reflexivity.
  - vm_compute. reflexivity.
Defined.

(** ** The documented runs of the examples *)

(** The basic example: a large pizza with two toppings and extra cheese. *)
Example pizza_example :
  let chain :=
    andThen (andThen (andThen (andThen (andThen
      (Fixtures.wrap Fixtures.PizzaBuilder)
      (λ st b, callMember st b "withSize" (constArgs [VString "large"])))
      (λ st b, callMember st b "addTopping" (constArgs [VString "pepperoni"])))
      (λ st b, callMember st b "addTopping" (constArgs [VString "mushrooms"])))
      (λ st b, callGroupMember st b "preferences" "extraCheese" (constArgs [])))
      (λ st b, callMember st b "build" (constArgs [])) in
  ∃ pizza,
    chain.2 = Normal (WValue pizza)
    ∧ getProp (world chain.1) pizza (KString "size") = VString "large"
    ∧ Fixtures.elements (world chain.1)
        (getProp (world chain.1) pizza (KString "toppings"))
      = Some [VString "pepperoni"; VString "mushrooms"]
    ∧ getProp (world chain.1) (getProp (world chain.1) pizza (KString "options"))
              (KString "glutenFree") = VBoolean false
    ∧ getProp (world chain.1) (getProp (world chain.1) pizza (KString "options"))
              (KString "extraCheese") = VBoolean true
    ∧ called chain.1 (Handler 0 (VString "build")) = {["withSize"; "preferences"]}.
Proof.
  intros chain. eexists.
  split; [vm_compute; reflexivity|].
  repeat split; vm_compute; reflexivity.
Qed.

(** ** Whole chains *)

Section WholeChains.
Context {World : Type} `{HostW : Host World}.
Implicit Types (st : state World) (h : handler) (p : proxy) (w : World).
Implicit Types (m g k b : string) (v val tgt : value) (args : list value).

(** A call on a value of the inner builder gives a value of the inner
    builder, never a view. *)
Lemma callMember_value st v m (argsE : argsExpr) st1 r :
  callMember st (WValue v) m argsE = (st1, Normal r) → ∃ x, r = WValue x.
Proof.
  unfold callMember.
  destruct (getMember st (WValue v) (KString m)) as [f|e] eqn:Hget; [|done].
  assert (∃ y, f = WValue y) as [y ->].
  { destruct v; simpl in Hget; try done; injection Hget as <-; eauto. }
  destruct (argsE (world st)) as [w0 [args|e]]; [|done]. simpl.
  destruct (invoke y _ args w0) as [w1 [x|e]]; simpl; [|done].
  intros [= _ <-]. eauto.
Qed.

Lemma callStep_value st v c st1 r :
  callStep st (WValue v) c = (st1, Normal r) → ∃ x, r = WValue x.
Proof.
  destruct c as [m args|g k args]; simpl.
  - apply callMember_value.
  - unfold callGroupMember.
    destruct (getMember st (WValue v) (KString g)) as [f|e] eqn:Hget; [|done].
    assert (∃ y, f = WValue y) as [y ->].
    { destruct v; simpl in Hget; try done; injection Hget as <-; eauto. }
    apply callMember_value.
Qed.

Lemma runChain_value st v calls st' r :
  runChain st (WValue v) calls = (st', Normal r) → ∃ x, r = WValue x.
Proof.
  revert st v. induction calls as [|c rest IH]; intros st v; simpl.
  - intros [= _ <-]. eauto.
  - destruct (callStep st (WValue v) c) as [st1 [recv1|e]] eqn:Hstep; [|done].
    apply callStep_value in Hstep as [x ->]. apply IH.
Qed.

(** A call returns a value of the inner builder or a view, nothing else. *)
Lemma call_returns st f thisArg args st1 r :
  call st f thisArg args = (st1, Normal r) →
  (∃ x, r = WValue x) ∨ (∃ q, r = WProxy q).
Proof.
  destruct f as [y|q|tgt prop|h tgt prop val one|gf|ms]; simpl; try done.
  - destruct (invoke y thisArg args (world st)) as [w1 [x|e]]; simpl; [|done].
    intros [= _ <-]. eauto.
  - destruct (invoke _ tgt [] (world st)) as [w1 [x|e]]; simpl; [|done].
    intros [= _ <-]. eauto.
  - destruct (invoke val tgt args (world st)) as [w1 [x|e]]; [|done].
    rewrite finish_normal. intros [= _ <-]. eauto.
  - destruct (invoke _ (g_value gf) args (world st)) as [w1 [x|e]]; [|done].
    rewrite finish_normal. intros [= _ <-]. eauto.
Qed.

Lemma callMember_returns st recv m (argsE : argsExpr) st1 r :
  callMember st recv m argsE = (st1, Normal r) →
  (∃ x, r = WValue x) ∨ (∃ q, r = WProxy q).
Proof.
  unfold callMember. destruct (getMember st recv (KString m)) as [f|e]; [|done].
  destruct (argsE (world st)) as [w0 [args|e]]; [|done].
  apply call_returns.
Qed.

Lemma callStep_returns st recv c st1 r :
  callStep st recv c = (st1, Normal r) →
  (∃ x, r = WValue x) ∨ (∃ q, r = WProxy q).
Proof.
  destruct c as [m args|g k args]; simpl.
  - apply callMember_returns.
  - unfold callGroupMember.
    destruct (getMember st recv (KString g)) as [f|e]; [|done].
    apply callMember_returns.
Qed.

(** What is known when a member call on a view returned a view. *)
Lemma callMember_view_inv st p m (argsE : argsExpr) st1 p1 :
  callMember st (WProxy p) m argsE = (st1, Normal (WProxy p1)) →
  ∃ w0 args w1 x,
    VString m ≠ buildMethod (phandler p)
    ∧ argsE (world st) = (w0, Normal args)
    ∧ invoke (getProp (world st) (target p) (KString m)) (target p) args w0
        = (w1, Normal x)
    ∧ (startsWith m "with" = true → m ∉ called st (phandler p))
    ∧ st1 = (if startsWith m "with" then recorded st w1 (phandler p) m
             else unrecorded st w1)
    ∧ p1 = Proxy (nextProxy st) (target p) (phandler p).
Proof.
  intros Hcall.
  destruct (strictEqualsString m (buildMethod (phandler p))) eqn:Hb.
  - exfalso. revert Hcall. unfold callMember, getMember, get. rewrite Hb.
    destruct (argsE (world st)) as [w0 [args|e]]; [|done]. simpl.
    destruct (invoke _ (target p) [] w0) as [w1 [x|e]]; done.
  - apply strictEqualsString_false in Hb.
    destruct (callMember_normal_inv _ _ _ _ _ _ Hb Hcall)
      as (w0 & args & w1 & x & Hty & Hargs & Hinv & -> & [= ->]).
    exists w0, args, w1, x. repeat split; try done.
    intros Hone Hin.
    destruct (method_refused st p m argsE Hone Hb Hty Hin) as [_ Hrefused].
    by rewrite Hrefused in Hcall.
Qed.

(** What is known when a group call on a view returned a view. *)
Lemma callGroupMember_view_inv st p g k (argsE : argsExpr) st1 p1 :
  callGroupMember st (WProxy p) g k argsE = (st1, Normal (WProxy p1)) →
  ∃ w0 args w1 x,
    (g ∉ called st (phandler p))
    ∧ argsE (world st) = (w0, Normal args)
    ∧ invoke (getProp w0 (getProp (world st) (target p) (KString g)) (KString k))
             (getProp (world st) (target p) (KString g)) args w0
        = (w1, Normal x)
    ∧ st1 = recorded st w1 (phandler p) g
    ∧ p1 = Proxy (nextProxy st) (target p) (phandler p).
Proof.
  unfold callGroupMember, getMember, get.
  assert (∀ f, (∀ q, f ≠ WProxy q) → (∀ ms, f ≠ WGroupProxy ms) →
            (∀ gf, f ≠ WGroupFn gf) → (∀ y, f ≠ WValue y) →
            callMember st f k argsE ≠ (st1, Normal (WProxy p1))) as Hclosure.
  { intros f H1 H2 H3 H4. unfold callMember.
    destruct f; try (by edestruct H1); try (by edestruct H2);
      try (by edestruct H3); try (by edestruct H4); simpl;
      destruct (argsE (world st)) as [w0 [args|e]]; done. }
  destruct (strictEqualsString g (buildMethod (phandler p))).
  { intros Hcall. by apply Hclosure in Hcall. }
  destruct (String.eqb (typeof _) "function").
  { destruct (startsWith g "with" && calledHas st (phandler p) g); [done|].
    intros Hcall. by apply Hclosure in Hcall. }
  destruct (String.eqb (typeof _) "object" && notNull _).
  - destruct (calledHas st (phandler p) g) eqn:Hhas; [done|].
    apply calledHas_false in Hhas.
    unfold callMember, getMember.
    destruct (lookupMember _ k) as [gf|] eqn:Hlook.
    + apply lookupMember_map_inv in Hlook. subst gf.
      destruct (argsE (world st)) as [w0 [args|e]] eqn:Hargs; [|done]. simpl.
      destruct (invoke _ _ args w0) as [w1 [x|e]] eqn:Hinv; [|done].
      rewrite finish_normal. intros [= <- <-].
      exists w0, args, w1, x. done.
    + destruct (argsE (world st)) as [w0 [args|e]]; done.
  - intros Hcall. by apply callMember_value in Hcall as [x Hx].
Qed.

(** One call of a chain that returned a view: the view is new, on the
    same target and handler; the name the call consumes was not in the
    called set and is now; the host is as the inner call left it. *)
Lemma callStep_view_inv st p c st1 p1 :
  callStep st (WProxy p) c = (st1, Normal (WProxy p1)) →
  (∀ n, n ∈ consumes c → n ∉ called st (phandler p))
  ∧ called st1 (phandler p) = (list_to_set (consumes c) ∪ called st (phandler p))
  ∧ applyStep (world st) (target p) c = Some (world st1)
  ∧ p1 = Proxy (nextProxy st) (target p) (phandler p)
  ∧ nextProxy st1 = S (nextProxy st).
Proof.
  destruct c as [m args|g k args]; simpl; intros Hcall.
  - apply callMember_view_inv in Hcall
      as (w0 & vs & w1 & x & Hnb & [= <- <-] & Hinv & Hfresh & -> & ->).
    rewrite Hinv.
    destruct (startsWith m "with"); simpl.
    + repeat split; try done.
      * intros n Hn. apply list_elem_of_singleton in Hn as ->. auto.
      * rewrite called_recorded. simpl. by rewrite (right_id_L ∅ (∪)).
    + repeat split; try done.
      * intros n Hn. by apply elem_of_nil in Hn.
      * simpl. by rewrite (left_id_L ∅ (∪)).
  - apply callGroupMember_view_inv in Hcall
      as (w0 & vs & w1 & x & Hfresh & [= <- <-] & Hinv & -> & ->).
    rewrite Hinv. repeat split; try done.
    + intros n Hn. apply list_elem_of_singleton in Hn as ->. auto.
    + rewrite called_recorded. simpl. by rewrite (right_id_L ∅ (∪)).
Qed.

(** A chain that ran to its end used every one-time method and every
    group at most once, and none that was used before the chain began:
    the names its calls consume are pairwise different, none of them was
    in the called set, all of them are afterwards, and nothing else was
    added; the view at the end is on the target and the handler of the
    view at the start. *)
Theorem chain_consumes_each_name_once st p calls st' p' :
  runChain st (WProxy p) calls = (st', Normal (WProxy p')) →
  NoDup (concat (map consumes calls))
  ∧ (∀ n, n ∈ concat (map consumes calls) → n ∉ called st (phandler p))
  ∧ called st' (phandler p)
    = list_to_set (concat (map consumes calls)) ∪ called st (phandler p)
  ∧ target p' = target p ∧ phandler p' = phandler p
  ∧ nextProxy st' = nextProxy st + length calls.
Proof.
  revert st p. induction calls as [|c rest IH]; intros st p; simpl.
  - intros [= <- <-]. repeat split; try done.
    + constructor.
    + intros n Hn. by apply elem_of_nil in Hn.
    + simpl. by rewrite (left_id_L ∅ (∪)).
  - destruct (callStep st (WProxy p) c) as [st1 [recv1|e]] eqn:Hstep; [|done].
    intros Hrun.
    destruct (callStep_returns _ _ _ _ _ Hstep) as [[x ->]|[p1 ->]].
    { by apply runChain_value in Hrun as [y Hy]. }
    destruct (callStep_view_inv _ _ _ _ _ Hstep)
      as (Hfresh1 & Hcalled1 & _ & -> & Hnext1).
    destruct (IH _ _ Hrun) as (Hnd & Hfresh & Hcalled & Htgt & Hh & Hnext).
    simpl in *. repeat split; try done.
    + apply NoDup_app. split; [|split; [|done]].
      * destruct c as [m args|g k args]; simpl;
          [destruct (startsWith m "with")|]; repeat constructor; set_solver.
      * intros n H1 H2. apply (Hfresh n H2). rewrite Hcalled1.
        by apply elem_of_union_l, elem_of_list_to_set.
    + intros n Hn. apply elem_of_app in Hn as [Hn|Hn]; [by apply Hfresh1|].
      intros Hin. apply (Hfresh n Hn). rewrite Hcalled1.
      by apply elem_of_union_r.
    + rewrite Hcalled, Hcalled1, list_to_set_app_L.
      rewrite (assoc_L (∪)). f_equal. apply (comm_L (∪)).
    + lia.
Qed.

(** The wrapper is transparent to what the inner methods do: a chain
    that ran to its end leaves the host as the same calls, made in the
    same order on the inner builder itself, leave it. *)
Theorem chain_runs_inner_calls_in_order st p calls st' p' :
  runChain st (WProxy p) calls = (st', Normal (WProxy p')) →
  applyChain (world st) (target p) calls = Some (world st').
Proof.
  revert st p. induction calls as [|c rest IH]; intros st p; simpl.
  - by intros [= <- _].
  - destruct (callStep st (WProxy p) c) as [st1 [recv1|e]] eqn:Hstep; [|done].
    intros Hrun.
    destruct (callStep_returns _ _ _ _ _ Hstep) as [[x ->]|[p1 ->]].
    { by apply runChain_value in Hrun as [y Hy]. }
    destruct (callStep_view_inv _ _ _ _ _ Hstep) as (_ & _ & -> & -> & _).
    apply (IH _ _ Hrun).
Qed.

End WholeChains.

(** The chain of the basic example, up to [build()]: two names are
    consumed, [withSize] and [preferences]. *)
Lemma chain_consumes_each_name_once_witness :
  let st := (Fixtures.wrap Fixtures.PizzaBuilder).1 in
  let p := Fixtures.viewOf (Fixtures.wrap Fixtures.PizzaBuilder) in
  let calls := [Method "withSize" [VString "large"];
                Method "addTopping" [VString "pepperoni"];
                Method "addTopping" [VString "mushrooms"];
                Group "preferences" "extraCheese" []] in
  ∃ st' p',
    runChain st (WProxy p) calls = (st', Normal (WProxy p'))
    ∧ called st' (phandler p) = {["withSize"; "preferences"]}
    ∧ phandler p' = phandler p ∧ target p' = target p.
Proof.
  intros st p calls.
  destruct (runChain st (WProxy p) calls) as [st' [[x|p'| | | |]|e]] eqn:Hrun;
    try (vm_compute in Hrun; discriminate).
  exists st', p'. split; [reflexivity|].
  destruct (chain_consumes_each_name_once st p calls st' p' Hrun)
    as (_ & _ & Hcalled & Htgt & Hh & _).
  split; [|done]. rewrite Hcalled. vm_compute. reflexivity.
Defined.

(** The same chain leaves the heap as the four inner calls made on the
    pizza builder itself leave it. *)
Lemma chain_runs_inner_calls_in_order_witness :
  let st := (Fixtures.wrap Fixtures.PizzaBuilder).1 in
  let p := Fixtures.viewOf (Fixtures.wrap Fixtures.PizzaBuilder) in
  let calls := [Method "withSize" [VString "large"];
                Method "addTopping" [VString "pepperoni"];
                Method "addTopping" [VString "mushrooms"];
                Group "preferences" "extraCheese" []] in
  applyChain (world st) (target p) calls
  = Some (world (runChain st (WProxy p) calls).1).
Proof.
  intros st p calls.
  destruct (runChain st (WProxy p) calls) as [st' [[x|p'| | | |]|e]] eqn:Hrun;
    try (vm_compute in Hrun; discriminate).
  exact (chain_runs_inner_calls_in_order st p calls st' p' Hrun).
Defined.

(** ** Failures, refusals and calls that are not method calls *)

Section Failures.
Context {World : Type} `{HostW : Host World}.
Implicit Types (st : state World) (h : handler) (p : proxy) (w : World).
Implicit Types (m g k b : string) (v val tgt : value) (args : list value).

Lemma finish_throw_inv st w r (record : bool) h tgt name st1 e :
  finish st w r record h tgt name = (st1, Throw e) → st1 = setWorld st w.
Proof. destruct r as [x|e']; [by rewrite finish_normal|]. by intros [= <- _]. Qed.

Lemma call_throw_frame st f thisArg args st1 e :
  call st f thisArg args = (st1, Throw e) →
  calledSets st1 = calledSets st
  ∧ nextHandler st1 = nextHandler st ∧ nextProxy st1 = nextProxy st.
Proof.
  destruct f as [y|q|tgt prop|h tgt prop val one|gf|ms]; simpl.
  - destruct (invoke y thisArg args (world st)) as [w1 r]. by intros [= <- _].
  - by intros [= <- _].
  - destruct (invoke _ tgt [] (world st)) as [w1 r]. by intros [= <- _].
  - destruct (invoke val tgt args (world st)) as [w1 r].
    intros Hf. by apply finish_throw_inv in Hf as ->.
  - destruct (invoke _ (g_value gf) args (world st)) as [w1 r].
    intros Hf. by apply finish_throw_inv in Hf as ->.
  - by intros [= <- _].
Qed.

Lemma callMember_throw_frame st recv m (argsE : argsExpr) st1 e :
  callMember st recv m argsE = (st1, Throw e) →
  calledSets st1 = calledSets st
  ∧ nextHandler st1 = nextHandler st ∧ nextProxy st1 = nextProxy st.
Proof.
  unfold callMember.
  destruct (getMember st recv (KString m)) as [f|e0]; [|by intros [= <- _]].
  destruct (argsE (world st)) as [w0 [args|e0]]; [|by intros [= <- _]].
  intros Hcall. by apply call_throw_frame in Hcall.
Qed.

(** Whatever makes a call through the wrapper fail (a refusal, an
    argument expression or an inner method that throws, a member that
    cannot be called, a constructor that throws), the called sets and the
    allocation counters are afterwards what they were before: a failed
    call records nothing and makes no view. *)
Theorem failed_call_records_nothing :
  (∀ st recv m (argsE : argsExpr) st1 e,
     callMember st recv m argsE = (st1, Throw e) →
     calledSets st1 = calledSets st
     ∧ nextHandler st1 = nextHandler st ∧ nextProxy st1 = nextProxy st)
  ∧ (∀ st recv g k (argsE : argsExpr) st1 e,
       callGroupMember st recv g k argsE = (st1, Throw e) →
       calledSets st1 = calledSets st
       ∧ nextHandler st1 = nextHandler st ∧ nextProxy st1 = nextProxy st)
  ∧ (∀ st cls bm ctorArgs st1 e,
       createBuilder st cls bm ctorArgs = (st1, Throw e) →
       calledSets st1 = calledSets st
       ∧ nextHandler st1 = nextHandler st ∧ nextProxy st1 = nextProxy st).
Proof.
  repeat apply conj.
  - intros st recv m argsE st1 e. apply callMember_throw_frame.
  - intros st recv g k argsE st1 e. unfold callGroupMember.
    destruct (getMember st recv (KString g)) as [f|e0]; [|by intros [= <- _]].
    apply callMember_throw_frame.
  - intros st cls bm ctorArgs st1 e. unfold createBuilder.
    destruct (construct cls ctorArgs (world st)) as [w [inst|e0]]; [done|].
    by intros [= <- _].
Qed.

(** The trap throws in two cases only, both with the name in the
    called set: a callable member whose name starts with [with], with the
    "already called" error, and a non-null object member, with the
    "already used" error.  In every other case it returns. *)
Lemma trap_fails_only_when_consumed st p (key : key) e :
  getMember st (WProxy p) key = Throw e ↔
  ∃ m, key = KString m
       ∧ VString m ≠ buildMethod (phandler p)
       ∧ m ∈ called st (phandler p)
       ∧ ((typeof (getProp (world st) (target p) (KString m)) = "function"
           ∧ startsWith m "with" = true
           ∧ e = Error ("Method '" +:+ m +:+ "' already called"))
          ∨ (typeof (getProp (world st) (target p) (KString m)) = "object"
             ∧ getProp (world st) (target p) (KString m) ≠ VNull
             ∧ e = Error ("Group '" +:+ m +:+ "' already used"))).
Proof.
  split.
  - destruct key as [m|n]; [|done]. unfold getMember, get.
    destruct (strictEqualsString m (buildMethod (phandler p))) eqn:Hb; [done|].
    apply strictEqualsString_false in Hb.
    destruct (String.eqb (typeof _) "function") eqn:Hfun.
    + apply String.eqb_eq in Hfun.
      destruct (startsWith m "with") eqn:Hone; [|done]. simpl.
      destruct (calledHas st (phandler p) m) eqn:Hhas; [|done].
      apply calledHas_true in Hhas. intros [= <-].
      exists m. repeat split; try done. by left.
    + destruct (String.eqb (typeof _) "object") eqn:Hobj; [|done].
      apply String.eqb_eq in Hobj. simpl.
      destruct (notNull _) eqn:Hnull; [|done].
      destruct (calledHas st (phandler p) m) eqn:Hhas; [|done].
      apply calledHas_true in Hhas. intros [= <-].
      exists m. repeat split; try done. right. repeat split; try done.
      intros Heq. by rewrite Heq in Hnull.
  - intros (m & -> & Hnb & Hin & [(Hty & Hone & ->)|(Hty & Hnull & ->)]).
    + apply (method_refused st p m (constArgs [])); done.
    + apply (group_refused st p m "" (constArgs [])); done.
Qed.


(** The group closures are not checked either: through a group proxy
    that was read once and kept, a member runs and returns a view also
    when the name of the group is in the called set already, so several
    members of one group can be run. *)
Theorem group_closure_runs_unchecked st members k gf args w1 x :
  lookupMember members k = Some gf →
  g_prop gf ∈ called st (g_handler gf) →
  invoke (getProp (world st) (g_value gf) (KString (g_key gf))) (g_value gf)
         args (world st) = (w1, Normal x) →
  callMember st (WGroupProxy members) k (constArgs args)
  = (recorded st w1 (g_handler gf) (g_prop gf),
     Normal (WProxy (Proxy (nextProxy st) (g_target gf) (g_handler gf)))).
Proof.
  intros Hlook _ Hinv. unfold callMember, getMember. rewrite Hlook. simpl.
  rewrite Hinv. reflexivity.
Qed.

End Failures.

(** [withPort('x')] fails in the inner builder: nothing was recorded, no
    view was made. *)
Lemma failed_call_records_nothing_witness :
  let st := (Fixtures.wrap Fixtures.PortBuilder).1 in
  let p := Fixtures.viewOf (Fixtures.wrap Fixtures.PortBuilder) in
  let r := callMember st (WProxy p) "withPort" (constArgs [VString "x"]) in
  r.2 = Throw (Thrown (VString "bad port"))
  ∧ calledSets r.1 = calledSets st
  ∧ nextHandler r.1 = nextHandler st ∧ nextProxy r.1 = nextProxy st.
Proof.
  intros st p r. split; [vm_compute; reflexivity|].
  apply (proj1 failed_call_records_nothing st (WProxy p) "withPort"
               (constArgs [VString "x"]) r.1 (Thrown (VString "bad port"))).
  vm_compute. reflexivity.
Defined.


(** [const o = builder.options; o.enable(); o.disable()]: both members
    run, and [build()] shows both. *)
Lemma group_closure_runs_unchecked_witness :
  let st := (Fixtures.wrap Fixtures.OptionsBuilder).1 in
  let p := Fixtures.viewOf (Fixtures.wrap Fixtures.OptionsBuilder) in
  ∃ members st1 p1 st2 p2 st3 result,
    getMember st (WProxy p) (KString "options") = Normal (WGroupProxy members)
    ∧ callMember st (WGroupProxy members) "enable" (constArgs [])
      = (st1, Normal (WProxy p1))
    ∧ callMember st1 (WGroupProxy members) "disable" (constArgs [])
      = (st2, Normal (WProxy p2))
    ∧ callMember st2 (WProxy p2) "build" (constArgs [])
      = (st3, Normal (WValue result))
    ∧ Fixtures.elements (world st3) result
      = Some [VString "enabled"; VString "disabled"].
Proof.
  intros st p. eexists _, _, _, _, _, _, _.
  split; [vm_compute; reflexivity|].
  split; [vm_compute; reflexivity|].
  split.
  - eapply group_closure_runs_unchecked.
    + reflexivity.
    + vm_compute. set_solver.
    + vm_compute. reflexivity.
  - split; vm_compute; reflexivity.
Defined.

(** ** Builders made one after the other *)

Section Independence.
Context {World : Type} `{HostW : Host World}.
Implicit Types (st : state World) (h : handler) (p : proxy) (w : World).
Implicit Types (m g k b : string) (v val tgt : value) (args : list value).

Lemma finish_frame st w r (record : bool) h tgt name h' :
  hid h ≠ hid h' →
  called (finish st w r record h tgt name).1 h' = called st h'.
Proof.
  intros Hne. destruct r as [x|e]; [|done]. rewrite finish_normal.
  destruct record; [|done]. unfold called, recorded. simpl.
  by rewrite lookup_insert_ne.
Qed.

Lemma getMember_closure_handler st p (key : key) f :
  getMember st (WProxy p) key = Normal f →
  match f with
  | WMethodFn h _ _ _ _ => h = phandler p
  | WGroupProxy members =>
    ∀ k gf, lookupMember members k = Some gf → g_handler gf = phandler p
  | WGroupFn _ | WProxy _ => False
  | _ => True
  end.
Proof.
  destruct key as [m|n]; [|by intros [= <-]]. unfold getMember, get.
  destruct (strictEqualsString _ _); [by intros [= <-]|].
  destruct (String.eqb (typeof _) "function").
  { destruct (_ && _); [done|]. by intros [= <-]. }
  destruct (_ && _).
  - destruct (calledHas _ _ _); [done|]. intros [= <-] k gf Hlook.
    by apply lookupMember_map_inv in Hlook as ->.
  - by intros [= <-].
Qed.

Lemma callMember_frame st p m (argsE : argsExpr) h' :
  hid (phandler p) ≠ hid h' →
  called (callMember st (WProxy p) m argsE).1 h' = called st h'.
Proof.
  intros Hne. unfold callMember.
  destruct (getMember st (WProxy p) (KString m)) as [f|e] eqn:Hget; [|done].
  apply getMember_closure_handler in Hget.
  destruct (argsE (world st)) as [w0 [args|e]]; [|done].
  destruct f as [y|q|tgt prop|h tgt prop val one|gf|ms]; simpl; try done.
  - by destruct (invoke y _ args w0).
  - by destruct (invoke _ tgt [] w0).
  - subst h. destruct (invoke val tgt args w0).
    by rewrite finish_frame.
Qed.

Lemma callGroupMember_frame st p g k (argsE : argsExpr) h' :
  hid (phandler p) ≠ hid h' →
  called (callGroupMember st (WProxy p) g k argsE).1 h' = called st h'.
Proof.
  intros Hne. unfold callGroupMember.
  destruct (getMember st (WProxy p) (KString g)) as [f|e] eqn:Hget; [|done].
  apply getMember_closure_handler in Hget. unfold callMember.
  destruct f as [y|q|tgt prop|h tgt prop val one|gf|ms]; try done.
  - destruct (getMember st (WValue y) (KString k)) as [f|e] eqn:Hget2; [|done].
    assert (∃ z, f = WValue z) as [z ->].
    { destruct y; simpl in Hget2; try done; injection Hget2 as <-; eauto. }
    destruct (argsE (world st)) as [w0 [args|e]]; [|done]. simpl.
    by destruct (invoke z _ args w0).
  - simpl. destruct (argsE (world st)) as [w0 [args|e]]; done.
  - simpl. destruct (argsE (world st)) as [w0 [args|e]]; done.
  - simpl. destruct (lookupMember ms k) as [gf|] eqn:Hlook.
    + destruct (argsE (world st)) as [w0 [args|e]]; [|done]. simpl.
      destruct (invoke _ (g_value gf) args w0).
      rewrite finish_frame; [done|]. by rewrite (Hget k gf Hlook).
    + destruct (argsE (world st)) as [w0 [args|e]]; done.
Qed.

(** Two builders, made by the same factory or not, have handlers of
    their own, and a call on a view of one never touches the called set
    of the other: what is consumed on one builder stays available on the
    other. *)
Theorem builders_are_independent :
  (∀ st cls bm ctorArgs st1 p st2 cls' bm' ctorArgs' st3 q,
     createBuilder st cls bm ctorArgs = (st1, Normal (WProxy p)) →
     steps st1 st2 →
     createBuilder st2 cls' bm' ctorArgs' = (st3, Normal (WProxy q)) →
     hid (phandler p) ≠ hid (phandler q))
  ∧ (∀ st p q m (argsE : argsExpr),
       hid (phandler p) ≠ hid (phandler q) →
       called (callMember st (WProxy p) m argsE).1 (phandler q)
       = called st (phandler q))
  ∧ (∀ st p q g k (argsE : argsExpr),
       hid (phandler p) ≠ hid (phandler q) →
       called (callGroupMember st (WProxy p) g k argsE).1 (phandler q)
       = called st (phandler q)).
Proof.
  repeat apply conj.
  - intros st cls bm ctorArgs st1 p st2 cls' bm' ctorArgs' st3 q Hp Hsteps Hq.
    unfold createBuilder in Hp, Hq.
    destruct (construct cls ctorArgs (world st)) as [w [inst|e]]; [|done].
    destruct (construct cls' ctorArgs' (world st2)) as [w' [inst'|e]]; [|done].
    simpl in Hp, Hq. injection Hp as <- <-. injection Hq as _ <-. simpl.
    destruct (steps_mono _ _ (Handler (nextHandler st) bm) Hsteps) as (_ & Hle & _);
      simpl in *; lia.
  - intros st p q m argsE Hne. by apply callMember_frame.
  - intros st p q g k argsE Hne. by apply callGroupMember_frame.
Qed.

Lemma startsWith_append m pre :
  startsWith m pre = true ↔ ∃ rest, m = pre +:+ rest.
Proof.
  unfold startsWith. revert m. induction pre as [|a pre IH]; intros m.
  - destruct m; split; simpl; eauto.
  - destruct m as [|c m]; simpl.
    + split; [done|]. by intros [rest [=]].
    + destruct (Ascii.ascii_dec a c) as [->|Hne].
      * rewrite IH. split; intros [rest Hrest]; exists rest.
        -- by rewrite Hrest.
        -- by injection Hrest.
      * split; [done|]. by intros [rest [= -> _]].
Qed.

(** A callable member is one-time exactly when its name is [with]
    followed by anything, nothing included, in this spelling: a call of
    such a member that returns adds its name to the called set, a call of
    any other callable member leaves the called sets as they are. *)
Theorem one_time_iff_with_prefix st p m (argsE : argsExpr) st1 r :
  VString m ≠ buildMethod (phandler p) →
  callMember st (WProxy p) m argsE = (st1, Normal r) →
  ((∃ rest, m = "with" +:+ rest)
   ∧ called st1 (phandler p) = {[m]} ∪ called st (phandler p))
  ∨ ((∀ rest, m ≠ "with" +:+ rest) ∧ calledSets st1 = calledSets st).
Proof.
  intros Hnb Hcall.
  destruct (callMember_normal_inv _ _ _ _ _ _ Hnb Hcall)
    as (w0 & args & w1 & x & _ & _ & _ & -> & _).
  destruct (startsWith m "with") eqn:Hone.
  - left. split; [by apply startsWith_append|]. apply called_recorded.
  - right. split; [|done]. intros rest Hrest.
    assert (startsWith m "with" = true) as Htrue
      by (apply startsWith_append; eauto).
    congruence.
Qed.

End Independence.

(** Two builders of the second class of the suite: [withName] on the
    first leaves the second one as it was, where [withName] is then
    accepted. *)
Lemma builders_are_independent_witness :
  let first := Fixtures.wrap Fixtures.NameBuilder in
  let second := callFactory first.1 (createBuilderFactory [Fixtures.NameBuilder]) [] in
  let p := Fixtures.viewOf first in
  let q := Fixtures.viewOf second in
  let r := callMember second.1 (WProxy p) "withName" (constArgs [VString "a"]) in
  hid (phandler p) ≠ hid (phandler q)
  ∧ called r.1 (phandler q) = ∅
  ∧ ∃ st' q', callMember r.1 (WProxy q) "withName" (constArgs [VString "b"])
              = (st', Normal (WProxy q')).
Proof.
  intros first second p q r.
  destruct (@builders_are_independent (list Fixtures.obj) _) as (Hids & Hframe & _).
  assert (hid (phandler p) ≠ hid (phandler q)) as Hne.
  { apply (Hids Fixtures.state0 Fixtures.NameBuilder (VString "build") []
                first.1 p first.1 Fixtures.NameBuilder (VString "build") []
                second.1 q).
    - reflexivity.
    - apply steps_refl.
    - reflexivity. }
  split; [exact Hne|]. split.
  - unfold r. rewrite (Hframe second.1 p q "withName" _ Hne).
    vm_compute. reflexivity.
  - eexists _, _. vm_compute. reflexivity.
Defined.

(** [withValue] is one-time: its name is [with] followed by [Value]. *)
Lemma one_time_iff_with_prefix_witness :
  let st := (Fixtures.wrap Fixtures.HelloBuilder).1 in
  let p := Fixtures.viewOf (Fixtures.wrap Fixtures.HelloBuilder) in
  let st1 := (callMember st (WProxy p) "withValue" (constArgs [VString "World"])).1 in
  called st1 (phandler p) = {["withValue"]} ∪ called st (phandler p).
Proof.
  intros st p st1.
  destruct (one_time_iff_with_prefix st p "withValue" (constArgs [VString "World"])
              st1 (WProxy (Proxy 1 (target p) (phandler p))))
    as [[_ Hrec]|[Hno _]].
  - discriminate.
  - vm_compute. reflexivity.
  - exact Hrec.
  - exfalso. by apply (Hno "Value").
Defined.

(** Names that are, and are not, one-time by this rule. *)
Example with_prefix_examples :
  startsWith "with" "with" = true
  ∧ startsWith "withdraw" "with" = true
  ∧ startsWith "With" "with" = false
  ∧ startsWith "addWith" "with" = false.
Proof. repeat split. Qed.

(** ** Reads as the engine performs them *)

Section EngineReads.
Context {World : Type} `{HostW : Host World} `{DescW : Descriptors World}.
Implicit Types (st : state World) (h : handler) (p : proxy) (w : World).
Implicit Types (m g k b : string) (v val tgt : value) (args : list value).

(** C10, as the code has it.  The trap answers a symbol key with
    [undefined] without looking at the inner builder.  The read of the
    key from a view is therefore [undefined], unless the inner builder has
    an own data property under that key that is neither configurable nor
    writable and holds something else than [undefined] (a frozen builder
    with a value under the key): there the engine refuses the answer of
    the trap with a [TypeError]. *)
Theorem symbol_key_read st p n :
  get st (phandler p) (target p) (KSymbol n) = Normal (WValue VUndefined)
  ∧ ((∀ v, ownFixed (world st) (target p) (KSymbol n) = Some (FixedData v) →
           v = VUndefined) →
     proxyGet st p (KSymbol n) = Normal (WValue VUndefined))
  ∧ (∀ v, ownFixed (world st) (target p) (KSymbol n) = Some (FixedData v) →
          v ≠ VUndefined →
          proxyGet st p (KSymbol n) = Throw TypeError).
Proof.
  split; [reflexivity|]. unfold proxyGet. simpl. split.
  - intros Hfixed.
    destruct (ownFixed (world st) (target p) (KSymbol n)) as [[v|]|]; try done.
    simpl. by rewrite (Hfixed v eq_refl), bool_decide_eq_true_2.
  - intros v -> Hne. simpl. rewrite bool_decide_eq_false_2; [done|].
    intros Heq. by apply Hne.
Qed.

(** On a target that has no fixed own property under the key, and
    where the member is a data property, the read of a member from a view
    throws in two cases only, both with the name in the called set and not
    the finalize name: a callable member whose name starts with [with]
    ("already called"), and a non-null object member ("already used").
    Every other read returns. *)
Theorem read_fails_only_when_consumed st p (key : key) e :
  ownFixed (world st) (target p) key = None →
  hasGetter (world st) (target p) key = false →
  proxyGet st p key = Throw e ↔
  ∃ m, key = KString m
       ∧ VString m ≠ buildMethod (phandler p)
       ∧ m ∈ called st (phandler p)
       ∧ ((typeof (getProp (world st) (target p) (KString m)) = "function"
           ∧ startsWith m "with" = true
           ∧ e = Error ("Method '" +:+ m +:+ "' already called"))
          ∨ (typeof (getProp (world st) (target p) (KString m)) = "object"
             ∧ getProp (world st) (target p) (KString m) ≠ VNull
             ∧ e = Error ("Group '" +:+ m +:+ "' already used"))).
Proof.
  intros Hfree _.
  rewrite <- (trap_fails_only_when_consumed st p key e).
  unfold proxyGet, getMember. rewrite Hfree.
  by destruct (get st (phandler p) (target p) key).
Qed.

(** An own member of the inner builder that is neither configurable
    nor writable (any own member of a frozen builder) cannot be reached
    through a view when the trap would wrap it: for a callable member, a
    non-null object member or the finalize name the read throws, with the
    engine's [TypeError] unless the wrapper's own refusal comes first. *)
Theorem fixed_member_cannot_be_wrapped st p m v :
  ownFixed (world st) (target p) (KString m) = Some (FixedData v) →
  getProp (world st) (target p) (KString m) = v →
  typeof v = "function" ∨ (typeof v = "object" ∧ v ≠ VNull)
    ∨ buildMethod (phandler p) = VString m →
  (∃ e, proxyGet st p (KString m) = Throw e)
  ∧ (m ∉ called st (phandler p) → proxyGet st p (KString m) = Throw TypeError).
Proof.
  intros Hfixed <- Hkind. unfold proxyGet. rewrite Hfixed.
  destruct (decide (VString m = buildMethod (phandler p))) as [Hb|Hnb].
  { rewrite get_build by done. simpl. eauto. }
  destruct Hkind as [Hfun|[[Hobj Hnull]|Hb]]; [| |by rewrite Hb in Hnb].
  - rewrite get_method by done.
    destruct (startsWith m "with" && calledHas st (phandler p) m) eqn:Hc.
    + split; [eauto|]. intros Hfresh. apply calledHas_false in Hfresh.
      by rewrite Hfresh, andb_false_r in Hc.
    + simpl. eauto.
  - rewrite get_object by done.
    destruct (calledHas st (phandler p) m) eqn:Hc.
    + split; [eauto|]. intros Hfresh. apply calledHas_false in Hfresh. congruence.
    + simpl. eauto.
Qed.

End EngineReads.

(** The [Port] builder keeps a name under a symbol key.  Once the
    builder is frozen, reading that key from the view is a [TypeError],
    not [undefined]. *)
Lemma symbol_key_frozen_counterexample :
  let st := Frozen.wrapFrozen Fixtures.PortBuilder in
  let p := Frozen.viewOf (Frozen.wrap Fixtures.PortBuilder) in
  getProp (world st) (target p) (KSymbol 0) = VString "PortBuilder"
  ∧ ownFixed (world st) (target p) (KSymbol 0)
    = Some (FixedData (VString "PortBuilder"))
  ∧ proxyGet st p (KSymbol 0) = Throw TypeError.
Proof. repeat split; vm_compute; reflexivity. Qed.

(** The same builder, not frozen: the key reads as [undefined], though
    the builder has a value under it. *)
Lemma symbol_key_read_witness :
  let st := (Frozen.wrap Fixtures.PortBuilder).1 in
  let p := Frozen.viewOf (Frozen.wrap Fixtures.PortBuilder) in
  getProp (world st) (target p) (KSymbol 0) = VString "PortBuilder"
  ∧ proxyGet st p (KSymbol 0) = Normal (WValue VUndefined).
Proof.
  intros st p. split; [reflexivity|].
  apply (proj1 (proj2 (symbol_key_read st p 0))).
  intros v Hv. vm_compute in Hv. discriminate.
Defined.

(** The second test of the suite: after [withName('first')], reading
    [withName] from the view fails. *)
Lemma read_fails_only_when_consumed_witness :
  let st := (Frozen.wrap Fixtures.NameBuilder).1 in
  let p := Frozen.viewOf (Frozen.wrap Fixtures.NameBuilder) in
  let st1 := (callMember st (WProxy p) "withName" (constArgs [VString "first"])).1 in
  proxyGet st1 p (KString "withName")
  = Throw (Error "Method 'withName' already called").
Proof.
  intros st p st1.
  refine (proj2 (read_fails_only_when_consumed st1 p (KString "withName")
                   (Error "Method 'withName' already called") _ _) _);
    [vm_compute; reflexivity|reflexivity|].
  exists "withName". split; [reflexivity|]. split; [discriminate|].
  split; [vm_compute; set_solver|]. left. repeat split; reflexivity.
Defined.

(** The group [mode] of a frozen [Port] builder cannot be read. *)
Lemma fixed_member_cannot_be_wrapped_witness :
  let st := Frozen.wrapFrozen Fixtures.PortBuilder in
  let p := Frozen.viewOf (Frozen.wrap Fixtures.PortBuilder) in
  proxyGet st p (KString "mode") = Throw TypeError.
Proof.
  intros st p.
  refine (proj2 (fixed_member_cannot_be_wrapped st p "mode" (VObject 30) _ _ _) _).
  - vm_compute. reflexivity.
  - vm_compute. reflexivity.
  - right. left. split; [reflexivity|discriminate].
  - vm_compute. set_solver.
Defined.

(** [const f = builder.withValue; f('a'); f('b')] on the first builder
    of the suite: [withValue] is in the called set when the second
    invocation is made, and yet it raises nothing and runs the inner
    method again, which overwrites the value. *)
Lemma one_time_second_invocation_counterexample :
  let st := (Fixtures.wrap Fixtures.HelloBuilder).1 in
  let p := Fixtures.viewOf (Fixtures.wrap Fixtures.HelloBuilder) in
  ∃ f st1 r1 st2 r2,
    getMember st (WProxy p) (KString "withValue") = Normal f
    ∧ call st f VUndefined [VString "a"] = (st1, Normal r1)
    ∧ "withValue" ∈ called st1 (phandler p)
    ∧ getProp (world st1) (target p) (KString "_value") = VString "a"
    ∧ call st1 f VUndefined [VString "b"] = (st2, Normal r2)
    ∧ getProp (world st2) (target p) (KString "_value") = VString "b".
Proof.
  intros st p. eexists _, _, _, _, _.
  split; [vm_compute; reflexivity|].
  split; [vm_compute; reflexivity|].
  split; [vm_compute; set_solver|].
  split; [vm_compute; reflexivity|].
  split; vm_compute; reflexivity.
Qed.
